(** * pulumi-rails-example: the Pulumi program [pulumi/__main__.py]

    The repository is one Python module whose body calls the constructors of
    the [pulumi_aws] provider in sequence and then calls [pulumi.export]
    twice.  The embedding below keeps that shape: the module body is one
    do-block in a small monad [SDK] that logs every call handed to the
    provisioning SDK and lets the SDK raise; resource arguments are Python
    data with lazily-resolved outputs at the leaves. *)

From Stdlib Require Import ZArith Ascii String DecimalString.
From stdpp Require Import base strings list gmap.

Local Open Scope string_scope.
Set Warnings "-register-all".

(** ** Python data *)

(** Plain Python data as [json.dumps] accepts it.  A [str] is modelled as the
    sequence of its code points, all below 256; a [dict] literal keeps its
    insertion order. *)
Inductive Json : Type :=
| JStr (s : string)
| JInt (n : Z)
| JBool (b : bool)
| JList (items : list Json)
| JDict (fields : list (string * Json)).

(** The resource classes of [pulumi_aws] that the script imports and calls. *)
Inductive Class : Type :=
| ec2_Vpc | ec2_Subnet | ec2_InternetGateway | ec2_RouteTable
| ec2_RouteTableAssociation | ec2_SecurityGroup
| ecr_Repository
| ecs_Cluster | ecs_TaskDefinition | ecs_Service
| iam_Role
| lb_LoadBalancer | lb_TargetGroup | lb_Listener.

#[global] Instance Class_eq_dec : EqDecision Class.
Proof. solve_decision. Defined.

(** A resource object as the script holds it: the class it was built from and
    its logical name.  Its attributes ([.id], [.arn], ...) are outputs. *)
Record Handle : Type := mkHandle { h_class : Class; h_name : string }.

#[global] Instance Handle_eq_dec : EqDecision Handle.
Proof. solve_decision. Defined.

(** Values passed to the SDK: Python data whose leaves may be outputs.  An
    [Output] is resolved by the engine after the script has run: it is a
    resource attribute, a function applied to a resolved output
    ([Output.apply]), or the JSON text of a value with outputs inside
    ([pulumi.Output.json_dumps]). *)
Inductive Input : Type :=
| IStr (s : string)
| IInt (n : Z)
| IBool (b : bool)
| IList (items : list Input)
| IDict (fields : list (string * Input))
| IOut (o : Output)
with Output : Type :=
| Attr (h : Handle) (a : string)
| Apply (o : Output) (f : string -> string)
| JsonDumps (v : Input).

Coercion IOut : Output >-> Input.

(** [h.@a] is the attribute access [h.a] on a resource object. *)
Notation "h .@ a" := (Attr h a) (at level 19, left associativity, format "h .@ a").

(** ** [json.dumps] with its default arguments *)

Module json.

Definition quote : ascii := "034"%char.
Definition backslash : ascii := "092"%char.

Definition hex_digit (n : N) : ascii :=
  if (n <? 10)%N then ascii_of_N (48 + n) else ascii_of_N (87 + n).

(** [ensure_ascii=True]: everything outside [' '..'~'] is escaped. *)
Definition escape_char (c : ascii) : string :=
  let n := N_of_ascii c in
  if Ascii.eqb c quote then String backslash (String quote "")
  else if Ascii.eqb c backslash then String backslash (String backslash "")
  else if (n =? 8)%N then String backslash "b"
  else if (n =? 12)%N then String backslash "f"
  else if (n =? 10)%N then String backslash "n"
  else if (n =? 13)%N then String backslash "r"
  else if (n =? 9)%N then String backslash "t"
  else if ((32 <=? n) && (n <=? 126))%N then String c ""
  else String backslash
         ("u00" +:+ String (hex_digit (n / 16)) (String (hex_digit (n mod 16)) "")).

Fixpoint escape (s : string) : string :=
  match s with
  | EmptyString => ""
  | String c s' => escape_char c +:+ escape s'
  end.

Definition encode_str (s : string) : string :=
  String quote (escape s) +:+ String quote "".

Definition encode_int (n : Z) : string := NilZero.string_of_int (Z.to_int n).

(** [", ".join(parts)] *)
Fixpoint join (parts : list string) : string :=
  match parts with
  | [] => ""
  | [p] => p
  | p :: rest => p +:+ ", " +:+ join rest
  end.

Fixpoint dumps (v : Json) : string :=
  match v with
  | JStr s => encode_str s
  | JInt n => encode_int n
  | JBool true => "true"
  | JBool false => "false"
  | JList items => "[" +:+ join (map dumps items) +:+ "]"
  | JDict fields =>
      "{" +:+ join (map (fun '(k, x) => encode_str k +:+ ": " +:+ dumps x) fields) +:+ "}"
  end.

End json.

(** ** Resolution of outputs *)

(** What the engine resolves a resource attribute to. *)
Definition Resolver : Type := Handle -> string -> string.

Fixpoint resolve (rho : Resolver) (v : Input) : Json :=
  match v with
  | IStr s => JStr s
  | IInt n => JInt n
  | IBool b => JBool b
  | IList items => JList (map (resolve rho) items)
  | IDict fields => JDict (map (fun '(k, x) => (k, resolve rho x)) fields)
  | IOut o => JStr (resolveO rho o)
  end
with resolveO (rho : Resolver) (o : Output) : string :=
  match o with
  | Attr h a => rho h a
  | Apply o' f => f (resolveO rho o')
  | JsonDumps v' => json.dumps (resolve rho v')
  end.

(** ** The provisioning SDK as the script sees it *)

(** A call handed to the SDK: a resource constructor with its logical name
    and keyword arguments, or [pulumi.export]. *)
Inductive Call : Type :=
| Register (c : Class) (name : string) (kwargs : list (string * Input))
| Export (key : string) (value : Input).

(** An exception raised out of an SDK call, by its message. *)
Definition Exn : Type := string.

(** Everything that can differ from one run of the script to the next: which
    SDK call raises (given the calls made so far), what the engine resolves
    attributes to, the stack configuration and the process environment. *)
Record Run : Type := mkRun {
  raises : list Call -> Call -> option Exn;
  resolver : Resolver;
  config : string -> option string;
  environ : string -> option string
}.

Inductive Result (A : Type) : Type :=
| Returned (a : A)
| Raised (e : Exn).
Arguments Returned {A} a.
Arguments Raised {A} e.

(** A piece of script: it runs in a given run context, after the calls in
    the log, and either returns or raises; the log grows by the calls it
    made, the raising call included. *)
Definition SDK (A : Type) : Type := Run -> list Call -> list Call * Result A.

#[global] Instance SDK_ret : MRet SDK := fun A a _ log => (log, Returned a).

#[global] Instance SDK_bind : MBind SDK := fun A B k m r log =>
  match m r log with
  | (log', Returned a) => k a r log'
  | (log', Raised e) => (log', Raised e)
  end.

(** One SDK call: logged, then it returns or raises as the run decides. *)
Definition call (c : Call) : SDK unit := fun r log =>
  match raises r log c with
  | Some e => ((log ++ [c])%list, Raised e)
  | None => ((log ++ [c])%list, Returned ())
  end.

(** A resource constructor [cls(name, **kwargs)] returns the resource
    object. *)
Definition construct (c : Class) (name : string) (kwargs : list (string * Input))
  : SDK Handle :=
  call (Register c name kwargs) ;; mret (mkHandle c name).

Module ec2.
Definition Vpc := construct ec2_Vpc.
Definition Subnet := construct ec2_Subnet.
Definition InternetGateway := construct ec2_InternetGateway.
Definition RouteTable := construct ec2_RouteTable.
Definition RouteTableAssociation := construct ec2_RouteTableAssociation.
Definition SecurityGroup := construct ec2_SecurityGroup.
Definition RouteTableRouteArgs (kwargs : list (string * Input)) : Input := IDict kwargs.
Definition SecurityGroupIngressArgs (kwargs : list (string * Input)) : Input := IDict kwargs.
Definition SecurityGroupEgressArgs (kwargs : list (string * Input)) : Input := IDict kwargs.
End ec2.

Module ecr.
Definition Repository := construct ecr_Repository.
End ecr.

Module ecs.
Definition Cluster := construct ecs_Cluster.
Definition TaskDefinition := construct ecs_TaskDefinition.
Definition Service := construct ecs_Service.
Definition ServiceNetworkConfigurationArgs (kwargs : list (string * Input)) : Input := IDict kwargs.
Definition ServiceLoadBalancerArgs (kwargs : list (string * Input)) : Input := IDict kwargs.
Definition ServiceCapacityProviderStrategyArgs (kwargs : list (string * Input)) : Input := IDict kwargs.
End ecs.

Module iam.
Definition Role := construct iam_Role.
End iam.

Module lb.
Definition LoadBalancer := construct lb_LoadBalancer.
Definition TargetGroup := construct lb_TargetGroup.
Definition Listener := construct lb_Listener.
Definition ListenerDefaultActionArgs (kwargs : list (string * Input)) : Input := IDict kwargs.
End lb.

Module pulumi.
Definition export (key : string) (value : Input) : SDK unit := call (Export key value).
Module Output.
Definition json_dumps (v : Input) : Output := JsonDumps v.
Definition apply (o : Output) (f : string -> string) : Output := Apply o f.
End Output.
End pulumi.

(** ** The script *)

(** The module body of [pulumi/__main__.py], statement by statement. *)
Definition main : SDK unit :=
  vpc ← ec2.Vpc "myapp-vpc"
    [("cidr_block", IStr "10.0.0.0/16");
     ("enable_dns_hostnames", IBool true);
     ("enable_dns_support", IBool true)];
  public_subnet_1 ← ec2.Subnet "public-subnet-1"
    [("vpc_id", IOut (vpc.@"id"));
     ("cidr_block", IStr "10.0.1.0/24");
     ("availability_zone", IStr "us-east-1a");
     ("map_public_ip_on_launch", IBool true)];
  public_subnet_2 ← ec2.Subnet "public-subnet-2"
    [("vpc_id", IOut (vpc.@"id"));
     ("cidr_block", IStr "10.0.2.0/24");
     ("availability_zone", IStr "us-east-1b");
     ("map_public_ip_on_launch", IBool true)];
  internet_gateway ← ec2.InternetGateway "myapp-igw" [("vpc_id", IOut (vpc.@"id"))];
  route_table ← ec2.RouteTable "myapp-rt"
    [("vpc_id", IOut (vpc.@"id"));
     ("routes", IList
        [ec2.RouteTableRouteArgs
           [("cidr_block", IStr "0.0.0.0/0");
            ("gateway_id", IOut (internet_gateway.@"id"))]])];
  ec2.RouteTableAssociation "rta-1"
    [("subnet_id", IOut (public_subnet_1.@"id"));
     ("route_table_id", IOut (route_table.@"id"))];;
  ec2.RouteTableAssociation "rta-2"
    [("subnet_id", IOut (public_subnet_2.@"id"));
     ("route_table_id", IOut (route_table.@"id"))];;
  security_group ← ec2.SecurityGroup "myapp-sg"
    [("description", IStr "Allow inbound traffic for the Rails app");
     ("vpc_id", IOut (vpc.@"id"));
     ("ingress", IList
        [ec2.SecurityGroupIngressArgs
           [("protocol", IStr "tcp");
            ("from_port", IInt 80);
            ("to_port", IInt 80);
            ("cidr_blocks", IList [IStr "0.0.0.0/0"])]]);
     ("egress", IList
        [ec2.SecurityGroupEgressArgs
           [("protocol", IStr "-1");
            ("from_port", IInt 0);
            ("to_port", IInt 0);
            ("cidr_blocks", IList [IStr "0.0.0.0/0"])]])];
  ecr_repo ← ecr.Repository "myapp-repo" [("name", IStr "myapp-repo")];
  cluster ← ecs.Cluster "myapp-cluster" [("name", IStr "myapp-cluster")];
  role ← iam.Role "myapp-task-exec-role"
    [("assume_role_policy", IStr (json.dumps
        (JDict
           [("Version", JStr "2008-10-17");
            ("Statement", JList
               [JDict
                  [("Sid", JStr "");
                   ("Effect", JStr "Allow");
                   ("Principal", JDict [("Service", JStr "ecs-tasks.amazonaws.com")]);
                   ("Action", JStr "sts:AssumeRole")]])])))];
  task_definition ← ecs.TaskDefinition "myapp-task"
    [("family", IStr "myapp-task-family");
     ("cpu", IStr "256");
     ("memory", IStr "512");
     ("network_mode", IStr "awsvpc");
     ("requires_compatibilities", IList [IStr "FARGATE"]);
     ("execution_role_arn", IOut (role.@"arn"));
     ("container_definitions", IOut (pulumi.Output.json_dumps
        (IList
           [IDict
              [("name", IStr "myapp");
               ("image", IOut (pulumi.Output.apply (ecr_repo.@"repository_url")
                                 (fun url => url +:+ ":latest")));
               ("portMappings", IList
                  [IDict
                     [("containerPort", IInt 3000);
                      ("hostPort", IInt 3000);
                      ("protocol", IStr "tcp")]]);
               ("secrets", IList
                  [IDict
                     [("name", IStr "DATABASE_URL");
                      ("valueFrom", IStr
                         "arn:aws:ssm:us-east-1:774287600271:parameter/myapp/database_url")]])]])))];
  alb ← lb.LoadBalancer "myapp-alb"
    [("load_balancer_type", IStr "application");
     ("security_groups", IList [IOut (security_group.@"id")]);
     ("subnets", IList [IOut (public_subnet_1.@"id"); IOut (public_subnet_2.@"id")])];
  target_group ← lb.TargetGroup "myapp-tg"
    [("port", IInt 80);
     ("protocol", IStr "HTTP");
     ("target_type", IStr "ip");
     ("vpc_id", IOut (vpc.@"id"))];
  listener ← lb.Listener "myapp-listener"
    [("load_balancer_arn", IOut (alb.@"arn"));
     ("port", IInt 80);
     ("default_actions", IList
        [lb.ListenerDefaultActionArgs
           [("type", IStr "forward");
            ("target_group_arn", IOut (target_group.@"arn"))]])];
  service ← ecs.Service "myapp-service"
    [("cluster", IOut (cluster.@"arn"));
     ("desired_count", IInt 1);
     ("task_definition", IOut (task_definition.@"arn"));
     ("network_configuration", ecs.ServiceNetworkConfigurationArgs
        [("assign_public_ip", IBool true);
         ("subnets", IList [IOut (public_subnet_1.@"id"); IOut (public_subnet_2.@"id")]);
         ("security_groups", IList [IOut (security_group.@"id")])]);
     ("load_balancers", IList
        [ecs.ServiceLoadBalancerArgs
           [("target_group_arn", IOut (target_group.@"arn"));
            ("container_name", IStr "myapp");
            ("container_port", IInt 3000)]]);
     ("capacity_provider_strategies", IList
        [ecs.ServiceCapacityProviderStrategyArgs
           [("capacity_provider", IStr "FARGATE_SPOT");
            ("weight", IInt 1)]])];
  pulumi.export "ecr_repo_url" (IOut (ecr_repo.@"repository_url"));;
  pulumi.export "alb_dns_name" (IOut (alb.@"dns_name")).

(** ** Running the script and reading what it did *)

(** The calls a piece of script hands to the SDK in a run, and how it ends. *)
Definition trace {A} (p : SDK A) (r : Run) : list Call := (p r []).1.
Definition outcome {A} (p : SDK A) (r : Run) : Result A := (p r []).2.

(** The run reaches the end of the module body. *)
Definition completes (r : Run) : Prop := outcome main r = Returned ().

(** A run in which no SDK call raises. *)
Definition quiet : Run :=
  {| raises := fun _ _ => None;
     resolver := fun h a => h_name h +:+ "." +:+ a;
     config := fun _ => None;
     environ := fun _ => None |}.

(** The calls of the script, in the order of the source text. *)
Definition manifest : list Call := trace main quiet.

(** Handing a fixed list of calls to the SDK one after the other, stopping
    at the first that raises. *)
Fixpoint play (cs : list Call) : SDK unit :=
  match cs with
  | [] => mret ()
  | c :: cs' => call c ;; play cs'
  end.

(** The resource object a call constructs. *)
Definition declared_by (c : Call) : option Handle :=
  match c with
  | Register cl name _ => Some (mkHandle cl name)
  | Export _ _ => None
  end.

(** The resources declared by a log of calls, in order. *)
Definition declared (log : list Call) : list Handle := omap declared_by log.

(** The keyword arguments a resource was declared with. *)
Fixpoint kwargs_of (log : list Call) (h : Handle) : option (list (string * Input)) :=
  match log with
  | [] => None
  | Register cl name kw :: log' =>
      if decide (mkHandle cl name = h) then Some kw else kwargs_of log' h
  | Export _ _ :: log' => kwargs_of log' h
  end.

(** [d[k]] on keyword arguments and on a dict. *)
Fixpoint kwarg (k : string) (kw : list (string * Input)) : option Input :=
  match kw with
  | [] => None
  | (k', v) :: kw' => if decide (k' = k) then Some v else kwarg k kw'
  end.

Definition getitem (k : string) (v : Input) : option Input :=
  match v with
  | IDict fields => kwarg k fields
  | _ => None
  end.

(** The argument [k] of the resource [h] in a log. *)
Definition arg (log : list Call) (h : Handle) (k : string) : option Input :=
  kwargs_of log h ≫= kwarg k.

(** The stack outputs: [pulumi.export] stores the value under the key, a
    later export of the same key replacing an earlier one. *)
Definition exports (log : list Call) : gmap string Input :=
  foldl (fun m c => match c with
                    | Export k v => <[k := v]> m
                    | Register _ _ _ => m
                    end) ∅ log.

(** The calls of a run that returned: all the calls issued, less the last
    one when the run ended with that call raising. *)
Definition returned_calls (r : Run) : list Call :=
  match outcome main r with
  | Returned _ => trace main r
  | Raised _ => removelast (trace main r)
  end.

(** The exported values once the engine has resolved the outputs: those of
    the exports that returned. *)
Definition stack_outputs (r : Run) : gmap string Json :=
  resolve (resolver r) <$> exports (returned_calls r).

(** The label of a call: class and logical name, or export key. *)
Definition label (c : Call) : string + Handle :=
  match c with
  | Register cl name _ => inr (mkHandle cl name)
  | Export k _ => inl k
  end.

(** The functions the script passes to [Output.apply], collected from a
    value. *)
Fixpoint applied (v : Input) : list (string -> string) :=
  match v with
  | IStr _ | IInt _ | IBool _ => []
  | IList items => concat (map applied items)
  | IDict fields => concat (map (fun '(_, x) => applied x) fields)
  | IOut o => appliedO o
  end
with appliedO (o : Output) : list (string -> string) :=
  match o with
  | Attr _ _ => []
  | Apply o' f => f :: appliedO o'
  | JsonDumps v' => applied v'
  end.

Definition applied_by (c : Call) : list (string -> string) :=
  match c with
  | Register _ _ kw => concat (map (fun '(_, x) => applied x) kw)
  | Export _ v => applied v
  end.

(** The resource objects the script binds to its module-level names. *)
Definition vpc : Handle := mkHandle ec2_Vpc "myapp-vpc".
Definition public_subnet_1 : Handle := mkHandle ec2_Subnet "public-subnet-1".
Definition public_subnet_2 : Handle := mkHandle ec2_Subnet "public-subnet-2".
Definition internet_gateway : Handle := mkHandle ec2_InternetGateway "myapp-igw".
Definition route_table : Handle := mkHandle ec2_RouteTable "myapp-rt".
Definition security_group : Handle := mkHandle ec2_SecurityGroup "myapp-sg".
Definition ecr_repo : Handle := mkHandle ecr_Repository "myapp-repo".
Definition cluster : Handle := mkHandle ecs_Cluster "myapp-cluster".
Definition role : Handle := mkHandle iam_Role "myapp-task-exec-role".
Definition task_definition : Handle := mkHandle ecs_TaskDefinition "myapp-task".
Definition alb : Handle := mkHandle lb_LoadBalancer "myapp-alb".
Definition target_group : Handle := mkHandle lb_TargetGroup "myapp-tg".
Definition listener : Handle := mkHandle lb_Listener "myapp-listener".
Definition service : Handle := mkHandle ecs_Service "myapp-service".

(** The resource declarations of the source text, top to bottom. *)
Definition textual_order : list Handle :=
  [vpc; public_subnet_1; public_subnet_2; internet_gateway; route_table;
   mkHandle ec2_RouteTableAssociation "rta-1";
   mkHandle ec2_RouteTableAssociation "rta-2";
   security_group; ecr_repo; cluster; role; task_definition;
   alb; target_group; listener; service].

(** ** The resource set as the specification lists it *)



(** ** CIDR blocks *)

(** An IPv4 block in CIDR notation [a.b.c.d/len]: a 32-bit address and a
    prefix length. *)
Record Cidr : Type := mkCidr { address : Z; prefix_len : Z }.

Definition digit_of (c : ascii) : option Z :=
  let n := Z.of_N (N_of_ascii c) in
  if (48 <=? n)%Z && (n <=? 57)%Z then Some (n - 48)%Z else None.

Fixpoint parse_digits (s : string) (acc : Z) : option Z :=
  match s with
  | EmptyString => Some acc
  | String c s' =>
      match digit_of c with
      | Some d => parse_digits s' (10 * acc + d)%Z
      | None => None
      end
  end.

Definition parse_decimal (s : string) : option Z :=
  match s with
  | EmptyString => None
  | _ => parse_digits s 0%Z
  end.

Fixpoint split_on (sep : ascii) (s : string) : list string :=
  match s with
  | EmptyString => [""]
  | String c s' =>
      if Ascii.eqb c sep then "" :: split_on sep s'
      else match split_on sep s' with
           | [] => [String c ""]
           | w :: ws => String c w :: ws
           end
  end.

Definition parse_octet (s : string) : option Z :=
  parse_decimal s ≫= fun n => if (n <=? 255)%Z then Some n else None.

Definition parse_ipv4 (s : string) : option Z :=
  match split_on "." s with
  | [a; b; c; d] =>
      a ← parse_octet a; b ← parse_octet b; c ← parse_octet c; d ← parse_octet d;
      Some (Z.lor (Z.shiftl a 24) (Z.lor (Z.shiftl b 16) (Z.lor (Z.shiftl c 8) d)))
  | _ => None
  end.

Definition parse_cidr (s : string) : option Cidr :=
  match split_on "/" s with
  | [ip; len] =>
      a ← parse_ipv4 ip; n ← parse_decimal len;
      if (n <=? 32)%Z then Some (mkCidr a n) else None
  | _ => None
  end.

(** An address is in the block when it is a 32-bit address whose leading
    [prefix_len] bits are those of the block. *)
Definition in_cidr (c : Cidr) (a : Z) : Prop :=
  (0 <= a < 2 ^ 32)%Z /\
  Z.shiftr a (32 - prefix_len c) = Z.shiftr (address c) (32 - prefix_len c).

(** The CIDR block a resource was declared with. *)
Definition cidr_block (log : list Call) (h : Handle) : option Cidr :=
  match arg log h "cidr_block" with
  | Some (IStr s) => parse_cidr s
  | _ => None
  end.

Definition is_export (c : Call) : bool :=
  match c with Export _ _ => true | Register _ _ _ => false end.

(** A run in which the call made after [n] earlier calls raises [e], and no
    other call raises. *)
Definition failing_at (n : nat) (e : Exn) : Run :=
  {| raises := fun log _ => if decide (length log = n) then Some e else None;
     resolver := resolver quiet;
     config := config quiet;
     environ := environ quiet |}.

(** A run that differs from [quiet] in its configuration, its environment
    and the identifiers the engine assigns. *)
Definition noisy : Run :=
  {| raises := fun _ _ => None;
     resolver := fun h a =>
       if decide (a = "id") then "i-" +:+ h_name h else h_name h +:+ "." +:+ a;
     config := fun k => Some ("cfg-" +:+ k);
     environ := fun k => Some ("env-" +:+ k) |}.

(** ** What a call refers to *)

(** The resource attributes a value reads: the outputs at its leaves. *)
Fixpoint attrs (v : Input) : list (Handle * string) :=
  match v with
  | IStr _ | IInt _ | IBool _ => []
  | IList items => concat (map attrs items)
  | IDict fields => concat (map (fun '(_, x) => attrs x) fields)
  | IOut o => attrsO o
  end
with attrsO (o : Output) : list (Handle * string) :=
  match o with
  | Attr h a => [(h, a)]
  | Apply o' _ => attrsO o'
  | JsonDumps v' => attrs v'
  end.

(** The arguments of a call as one value. *)
Definition payload (c : Call) : Input :=
  match c with
  | Register _ _ kw => IDict kw
  | Export _ v => v
  end.

(** The resource objects a call's arguments mention. *)
Definition refs (c : Call) : list Handle := (attrs (payload c)).*1.

(** Every call mentions only resources constructed by the calls before it,
    [seen] being those constructed before the list starts. *)
Fixpoint scoped (seen : list Handle) (cs : list Call) : bool :=
  match cs with
  | [] => true
  | c :: cs' =>
      forallb (fun h => bool_decide (h ∈ seen)) (refs c) &&
      scoped (seen ++ option_list (declared_by c)) cs'
  end.

(** ** Security group rules *)

Definition as_str (v : Input) : option string :=
  match v with IStr s => Some s | _ => None end.

Definition as_int (v : Input) : option Z :=
  match v with IInt n => Some n | _ => None end.

Definition as_list (v : Input) : option (list Input) :=
  match v with IList items => Some items | _ => None end.

(** An ingress or egress rule as the script writes it. *)
Record Rule : Type := mkRule {
  protocol : string;
  from_port : Z;
  to_port : Z;
  cidr_blocks : list string
}.

Definition rule_of (v : Input) : option Rule :=
  p ← getitem "protocol" v ≫= as_str;
  f ← getitem "from_port" v ≫= as_int;
  t ← getitem "to_port" v ≫= as_int;
  bs ← (getitem "cidr_blocks" v ≫= as_list) ≫= mapM as_str;
  Some (mkRule p f t bs).

(** The rules a security group was declared with under [k] (["ingress"] or
    ["egress"]). *)
Definition rules (log : list Call) (h : Handle) (k : string) : option (list Rule) :=
  (arg log h k ≫= as_list) ≫= mapM rule_of.

(** The meaning AWS gives a rule: it admits traffic of a protocol on a port
    to or from an address when the address is in one of its blocks and
    either the rule's protocol is ["-1"] (every protocol, every port) or it
    is the traffic's protocol and the port is within [from_port..to_port]. *)
Definition rule_admits (ru : Rule) (proto : string) (port addr : Z) : Prop :=
  (protocol ru = "-1" \/
   (protocol ru = proto /\ (from_port ru <= port <= to_port ru)%Z)) /\
  exists b c, b ∈ cidr_blocks ru /\ parse_cidr b = Some c /\ in_cidr c addr.

Definition admits (rs : list Rule) (proto : string) (port addr : Z) : Prop :=
  exists ru, ru ∈ rs /\ rule_admits ru proto port addr.

(** Writing JSON text with ['] for the double quote. *)
Fixpoint requote (s : string) : string :=
  match s with
  | EmptyString => ""
  | String c s' => String (if Ascii.eqb c "'" then json.quote else c) (requote s')
  end.

(** Membership in a list written out. *)
Ltac in_list := repeat first [apply list_elem_of_here | apply list_elem_of_further].

(** ** The library functions on sample inputs *)

Example dumps_scalars :
  json.dumps (JList [JInt 3000; JInt (-5); JBool false; JList []; JDict []]) =
  "[3000, -5, false, [], {}]".
Proof. reflexivity. Qed.

Example dumps_escapes :
  json.dumps (JStr (String "009" (String "127" (String "233" (String "092" "b"))))) =
  requote "'\t\u007f\u00e9\\b'".
Proof. reflexivity. Qed.

Example dumps_assume_role_policy :
  arg manifest role "assume_role_policy" =
  Some (IStr (requote
    "{'Version': '2008-10-17', 'Statement': [{'Sid': '', 'Effect': 'Allow', 'Principal': {'Service': 'ecs-tasks.amazonaws.com'}, 'Action': 'sts:AssumeRole'}]}")).
Proof. reflexivity. Qed.

Example parse_cidr_subnet :
  parse_cidr "10.0.1.0/24" = Some (mkCidr (10 * 2 ^ 24 + 0 * 2 ^ 16 + 1 * 2 ^ 8 + 0) 24).
Proof. reflexivity. Qed.

Example parse_cidr_rejects :
  parse_cidr "10.0.0.256/16" = None /\ parse_cidr "10.0.0.0/33" = None /\
  parse_cidr "10.0.0/16" = None /\ parse_cidr "10..0.0/16" = None /\
  parse_cidr "10.0.0.0" = None.
Proof. repeat split; reflexivity. Qed.

(** ** The monad's equations *)

Lemma call_bind {B} (c : Call) (k : unit -> SDK B) (r : Run) (log : list Call) :
  (call c ≫= k) r log =
  match raises r log c with
  | Some e => ((log ++ [c])%list, Raised e)
  | None => k () r (log ++ [c])%list
  end.
Proof. unfold mbind, SDK_bind, call. destruct (raises r log c); reflexivity. Qed.

Lemma construct_bind {B} cl name kw (k : Handle -> SDK B) (r : Run) (log : list Call) :
  (construct cl name kw ≫= k) r log =
  match raises r log (Register cl name kw) with
  | Some e => ((log ++ [Register cl name kw])%list, Raised e)
  | None => k (mkHandle cl name) r (log ++ [Register cl name kw])%list
  end.
Proof.
  unfold construct, mbind, SDK_bind, call, mret, SDK_ret.
  destruct (raises r log _); reflexivity.
Qed.

Lemma play_cons (c : Call) (cs : list Call) (r : Run) (log : list Call) :
  play (c :: cs) r log =
  match raises r log c with
  | Some e => ((log ++ [c])%list, Raised e)
  | None => play cs r (log ++ [c])%list
  end.
Proof. cbn [play]. apply call_bind. Qed.

Lemma main_play r log : main r log = play manifest r log.
Proof.
  let m := eval vm_compute in manifest in change manifest with m.
  unfold main, ec2.Vpc, ec2.Subnet, ec2.InternetGateway, ec2.RouteTable,
    ec2.RouteTableAssociation, ec2.SecurityGroup, ecr.Repository, ecs.Cluster,
    iam.Role, ecs.TaskDefinition, lb.LoadBalancer, lb.TargetGroup, lb.Listener,
    ecs.Service, pulumi.export.
  repeat lazymatch goal with
  | |- _ = play (?c :: ?cs) ?r ?log =>
      rewrite (play_cons c cs r log);
      first [rewrite construct_bind | rewrite call_bind | unfold call];
      lazymatch goal with
      | |- match raises _ _ ?cL with _ => _ end = _ =>
          change c with cL; destruct (raises r log cL); [reflexivity|]
      end
  end.
  reflexivity.
Qed.

(** ** Replaying a list of calls *)

Section Play.
Variable r : Run.

Lemma play_returned cs log log' :
  play cs r log = (log', Returned ()) -> log' = (log ++ cs)%list.
Proof.
  revert log. induction cs as [|c cs IH]; intros log.
  - cbn. intros [= <-]. by rewrite app_nil_r.
  - rewrite play_cons. destruct (raises r log c); [discriminate|].
    intros H. rewrite (IH _ H), <- app_assoc. reflexivity.
Qed.

Lemma play_raised cs log log' e :
  play cs r log = (log', Raised e) ->
  exists pre c post,
    cs = (pre ++ c :: post)%list /\ log' = (log ++ pre ++ [c])%list /\
    raises r (log ++ pre)%list c = Some e.
Proof.
  revert log. induction cs as [|c cs IH]; intros log.
  - cbn. discriminate.
  - rewrite play_cons. destruct (raises r log c) as [e'|] eqn:Hc.
    + intros [= <- <-]. exists [], c, cs. by rewrite app_nil_r.
    + intros H. destruct (IH _ H) as (pre & c' & post & -> & -> & He).
      exists (c :: pre), c', post. rewrite <- !app_assoc in *. done.
Qed.

Lemma play_raise_at pre c post log e :
  (forall i c', pre !! i = Some c' -> raises r (log ++ take i pre)%list c' = None) ->
  raises r (log ++ pre)%list c = Some e ->
  play (pre ++ c :: post) r log = ((log ++ pre ++ [c])%list, Raised e).
Proof.
  revert log. induction pre as [|p pre IH]; intros log Hq He.
  - cbn [app]. rewrite play_cons. rewrite app_nil_r in He. by rewrite He.
  - cbn [app]. rewrite play_cons.
    pose proof (Hq 0 p eq_refl) as H0. cbn in H0. rewrite app_nil_r in H0.
    rewrite H0. rewrite (IH (log ++ [p])%list).
    + by rewrite <- !app_assoc.
    + intros i c' Hi. rewrite <- app_assoc. apply (Hq (S i) c' Hi).
    + by rewrite <- app_assoc.
Qed.

Lemma play_prefix cs log : exists n, (play cs r log).1 = (log ++ take n cs)%list.
Proof.
  revert log. induction cs as [|c cs IH]; intros log.
  - exists 0. cbn. by rewrite app_nil_r.
  - rewrite play_cons. destruct (raises r log c).
    + exists 1. reflexivity.
    + destruct (IH (log ++ [c])%list) as [n Hn]. exists (S n).
      rewrite Hn, <- app_assoc. reflexivity.
Qed.

End Play.

(** ** What every run of the script does *)

Lemma completes_trace r : completes r -> trace main r = manifest.
Proof.
  unfold completes, outcome, trace. rewrite main_play.
  destruct (play manifest r []) as [log' res] eqn:Hp. cbn. intros ->.
  apply (play_returned r _ _ _ Hp).
Qed.

Lemma trace_prefix r : trace main r `prefix_of` manifest.
Proof.
  unfold trace. rewrite main_play.
  destruct (play_prefix r manifest []) as [n ->]. apply prefix_take.
Qed.

(** An error at the end of a run is the one an SDK call raised: the script
    raises nothing itself. *)
Lemma raised_by_a_call r e :
  outcome main r = Raised e ->
  exists pre c post,
    manifest = (pre ++ c :: post)%list /\ trace main r = (pre ++ [c])%list /\
    raises r pre c = Some e.
Proof.
  unfold outcome, trace. rewrite main_play.
  destruct (play manifest r []) as [log' res] eqn:Hp. cbn. intros ->.
  destruct (play_raised r _ _ _ _ Hp) as (pre & c & post & Hm & -> & He).
  exists pre, c, post. auto.
Qed.


Lemma manifest_labels :
  label <$> manifest =
  ((inr <$> textual_order) ++ [inl "ecr_repo_url"; inl "alb_dns_name"])%list.
Proof. reflexivity. Qed.

Lemma manifest_NoDup : NoDup manifest.
Proof.
  apply (NoDup_fmap_1 label). rewrite manifest_labels.
  apply (bool_decide_unpack _). vm_compute. exact I.
Qed.

Lemma manifest_declared : declared manifest = textual_order.
Proof. reflexivity. Qed.


(** ** The declared resources *)




(** ** The exports *)

(** C2: the script exports exactly two values: the declared repository's
    [repository_url] under ["ecr_repo_url"] and the declared load
    balancer's [dns_name] under ["alb_dns_name"]. *)
Theorem exports_exactly_two (r : Run) :
  completes r ->
  exports (trace main r) =
    {[ "ecr_repo_url" := IOut (ecr_repo.@"repository_url");
       "alb_dns_name" := IOut (alb.@"dns_name") ]} /\
  size (exports (trace main r)) = 2 /\
  filter is_export (trace main r) =
    [Export "ecr_repo_url" (IOut (ecr_repo.@"repository_url"));
     Export "alb_dns_name" (IOut (alb.@"dns_name"))] /\
  ecr_repo ∈ declared (trace main r) /\ h_class ecr_repo = ecr_Repository /\
  alb ∈ declared (trace main r) /\ h_class alb = lb_LoadBalancer /\
  stack_outputs r =
    {[ "ecr_repo_url" := JStr (resolver r ecr_repo "repository_url");
       "alb_dns_name" := JStr (resolver r alb "dns_name") ]}.
Proof.
  intros Hr. unfold stack_outputs, returned_calls.
  rewrite (Hr : outcome main r = Returned ()), (completes_trace r Hr).
  repeat split; try reflexivity.
  - rewrite manifest_declared. unfold textual_order. in_list.
  - rewrite manifest_declared. unfold textual_order. in_list.
Qed.

Lemma exports_exactly_two_witness :
  completes quiet /\ size (exports (trace main quiet)) = 2.
Proof.
  split; [reflexivity|].
  apply (exports_exactly_two quiet). reflexivity.
Defined.

(** ** Control flow *)

(** C3, as stated: in every run each resource declaration is executed
    exactly once.  This fails for a run in which a call raises: when the
    third call raises, the thirteen declarations after it are never
    issued. *)
Lemma early_run_declares_fewer :
  ~ (forall r, declared (trace main r) = textual_order).
Proof.
  intros H. specialize (H (failing_at 2 "boom")).
  apply (f_equal length) in H. vm_compute in H. discriminate H.
Qed.

(** C3, amended: in every run, whatever its configuration, environment or
    resolved values, the script hands the calls of [manifest] to the SDK
    one after the other in the order of the source text and stops at the
    first that raises: the calls issued are an initial segment of that
    sequence, none skipped or repeated.  A run that reaches the end has
    issued every resource declaration exactly once, in the order of the
    source text. *)
Theorem linear_sequence (r : Run) :
  (forall log, main r log = play manifest r log) /\
  trace main r `prefix_of` manifest /\
  declared (trace main r) `prefix_of` textual_order /\
  NoDup (trace main r) /\
  NoDup (declared (trace main r)) /\
  (completes r ->
     declared (trace main r) = textual_order /\
     label <$> trace main r =
       ((inr <$> textual_order) ++ [inl "ecr_repo_url"; inl "alb_dns_name"])%list /\
     NoDup textual_order).
Proof.
  assert (Hto : NoDup textual_order)
    by (apply (bool_decide_unpack _); vm_compute; exact I).
  assert (Hpre : declared (trace main r) `prefix_of` textual_order).
  { destruct (trace_prefix r) as [rest Hrest]. exists (declared rest).
    rewrite <- manifest_declared. rewrite Hrest at 1. unfold declared. apply omap_app. }
  split; [intros log; apply main_play|].
  split; [apply trace_prefix|]. split; [exact Hpre|].
  split; [|split].
  - destruct (trace_prefix r) as [rest Hrest]. pose proof manifest_NoDup as Hm.
    rewrite Hrest in Hm. by apply NoDup_app in Hm as [? _].
  - destruct Hpre as [rest Hrest]. rewrite Hrest in Hto.
    by apply NoDup_app in Hto as [? _].
  - intros Hr. rewrite (completes_trace r Hr).
    split; [apply manifest_declared|]. split; [apply manifest_labels | exact Hto].
Qed.

Lemma linear_sequence_witness :
  completes quiet /\ declared (trace main quiet) = textual_order.
Proof.
  split; [reflexivity|].
  destruct (linear_sequence quiet) as (_ & _ & _ & _ & _ & H).
  apply H. reflexivity.
Defined.

(** ** Errors *)

(** C4: the script handles no error.  When a call of the script, reached
    without an earlier call raising, raises [e], the run ends with [e]
    raised to the caller, the raising call has been issued once, and none
    of the calls after it in the script is issued. *)
Theorem error_propagates (r : Run) (pre post : list Call) (c : Call) (e : Exn) :
  manifest = (pre ++ c :: post)%list ->
  (forall i c', pre !! i = Some c' -> raises r (take i pre) c' = None) ->
  raises r pre c = Some e ->
  outcome main r = Raised e /\
  trace main r = (pre ++ [c])%list /\
  NoDup (trace main r) /\
  (forall c', c' ∈ post -> c' ∉ trace main r).
Proof.
  intros Hm Hq He. unfold outcome, trace. rewrite main_play, Hm.
  rewrite (play_raise_at r pre c post [] e Hq He). cbn [fst snd app].
  pose proof manifest_NoDup as Hnd. rewrite Hm in Hnd.
  change (pre ++ c :: post)%list with (pre ++ [c] ++ post)%list in Hnd.
  rewrite app_assoc in Hnd. apply NoDup_app in Hnd as (Hnd & Hdisj & _).
  split; [reflexivity|]. split; [reflexivity|]. split; [exact Hnd|].
  intros c' Hin Hin'. exact (Hdisj c' Hin' Hin).
Qed.

Lemma error_propagates_witness :
  outcome main (failing_at 2 "boom") = Raised "boom" /\
  declared (trace main (failing_at 2 "boom")) = [vpc; public_subnet_1; public_subnet_2].
Proof.
  destruct (error_propagates (failing_at 2 "boom")
              (take 2 manifest) (drop 3 manifest)
              (Register ec2_Subnet "public-subnet-2"
                 [("vpc_id", IOut (vpc.@"id"));
                  ("cidr_block", IStr "10.0.2.0/24");
                  ("availability_zone", IStr "us-east-1b");
                  ("map_public_ip_on_launch", IBool true)])
              "boom") as (Ho & Ht & _).
  - reflexivity.
  - intros i c' Hi. destruct i as [|[|i]]; [reflexivity | reflexivity | discriminate Hi].
  - reflexivity.
  - split; [exact Ho|]. rewrite Ht. reflexivity.
Defined.

(** ** The calls of the script *)

(** What the script does, whatever way it is written: every run hands
    calls of the same list of eighteen, sixteen resource constructors and
    two exports, with the same arguments, to the SDK in the same order.
    The one function among the arguments is the one passed to
    [Output.apply], which appends [":latest"]. *)
Theorem statements_are_declarations (r : Run) (log : list Call) :
  main r log = play manifest r log /\
  length manifest = 18 /\
  length (filter (fun c => bool_decide (is_Some (declared_by c))) manifest) = 16 /\
  length (filter is_export manifest) = 2 /\
  trace main r `prefix_of` manifest /\
  concat (applied_by <$> manifest) = [fun url => url +:+ ":latest"].
Proof.
  split; [apply main_play|]. split; [reflexivity|]. split; [reflexivity|].
  split; [reflexivity|]. split; [apply trace_prefix|]. reflexivity.
Qed.

(** ** Determinism *)



(** ** Network layout *)

Lemma shiftr_block (a k n : Z) :
  (0 <= n)%Z ->
  Z.shiftr a n = k <-> (k * 2 ^ n <= a < (k + 1) * 2 ^ n)%Z.
Proof.
  intros Hn. rewrite Z.shiftr_div_pow2 by exact Hn.
  assert (0 < 2 ^ n)%Z as Hp by (apply Z.pow_pos_nonneg; lia).
  split.
  - intros <-. pose proof (Z.mul_div_le a (2 ^ n) Hp).
    pose proof (Z.mul_succ_div_gt a (2 ^ n) Hp). lia.
  - intros [Hlo Hhi]. symmetry. apply (Z.div_unique a (2 ^ n) k (a - k * 2 ^ n)); lia.
Qed.

(** The blocks of the script as address ranges. *)
Lemma in_vpc_block a :
  in_cidr (mkCidr 167772160 16) a <-> (167772160 <= a <= 167837695)%Z.
Proof.
  unfold in_cidr. cbn [prefix_len address].
  change (Z.shiftr 167772160 (32 - 16)) with 2560%Z.
  rewrite (shiftr_block a 2560 (32 - 16)) by lia.
  change (2 ^ (32 - 16))%Z with 65536%Z. change (2 ^ 32)%Z with 4294967296%Z. lia.
Qed.

Lemma in_subnet_1_block a :
  in_cidr (mkCidr 167772416 24) a <-> (167772416 <= a <= 167772671)%Z.
Proof.
  unfold in_cidr. cbn [prefix_len address].
  change (Z.shiftr 167772416 (32 - 24)) with 655361%Z.
  rewrite (shiftr_block a 655361 (32 - 24)) by lia.
  change (2 ^ (32 - 24))%Z with 256%Z. change (2 ^ 32)%Z with 4294967296%Z. lia.
Qed.

Lemma in_subnet_2_block a :
  in_cidr (mkCidr 167772672 24) a <-> (167772672 <= a <= 167772927)%Z.
Proof.
  unfold in_cidr. cbn [prefix_len address].
  change (Z.shiftr 167772672 (32 - 24)) with 655362%Z.
  rewrite (shiftr_block a 655362 (32 - 24)) by lia.
  change (2 ^ (32 - 24))%Z with 256%Z. change (2 ^ 32)%Z with 4294967296%Z. lia.
Qed.

(** C7: the two subnets, declared with the blocks 10.0.1.0/24 and
    10.0.2.0/24, share no address, each lies within the VPC's block
    10.0.0.0/16, and they are placed in the distinct availability zones
    us-east-1a and us-east-1b. *)
Theorem subnets_partition_vpc (r : Run) :
  completes r ->
  exists v s1 s2 : Cidr,
    arg (trace main r) vpc "cidr_block" = Some (IStr "10.0.0.0/16") /\
    arg (trace main r) public_subnet_1 "cidr_block" = Some (IStr "10.0.1.0/24") /\
    arg (trace main r) public_subnet_2 "cidr_block" = Some (IStr "10.0.2.0/24") /\
    cidr_block (trace main r) vpc = Some v /\
    cidr_block (trace main r) public_subnet_1 = Some s1 /\
    cidr_block (trace main r) public_subnet_2 = Some s2 /\
    filter (fun h => bool_decide (h_class h = ec2_Subnet)) (declared (trace main r)) =
      [public_subnet_1; public_subnet_2] /\
    (forall a, in_cidr s1 a -> ~ in_cidr s2 a) /\
    (forall a, in_cidr s1 a -> in_cidr v a) /\
    (forall a, in_cidr s2 a -> in_cidr v a) /\
    (exists a, in_cidr s1 a) /\ (exists a, in_cidr s2 a) /\
    arg (trace main r) public_subnet_1 "availability_zone" = Some (IStr "us-east-1a") /\
    arg (trace main r) public_subnet_2 "availability_zone" = Some (IStr "us-east-1b") /\
    arg (trace main r) public_subnet_1 "availability_zone" <>
      arg (trace main r) public_subnet_2 "availability_zone".
Proof.
  intros Hr. rewrite (completes_trace r Hr).
  exists (mkCidr 167772160 16), (mkCidr 167772416 24), (mkCidr 167772672 24).
  repeat (split; [reflexivity|]).
  split; [|split; [|split; [|split; [|split]]]].
  - intros a H1 H2. apply in_subnet_1_block in H1. apply in_subnet_2_block in H2. lia.
  - intros a H1. apply in_subnet_1_block in H1. apply in_vpc_block. lia.
  - intros a H2. apply in_subnet_2_block in H2. apply in_vpc_block. lia.
  - exists 167772416%Z. apply in_subnet_1_block. lia.
  - exists 167772672%Z. apply in_subnet_2_block. lia.
  - repeat (split; [reflexivity|]). vm_compute. discriminate.
Qed.

Lemma subnets_partition_vpc_witness :
  completes quiet /\
  exists v s1 s2 : Cidr,
    cidr_block (trace main quiet) vpc = Some v /\
    cidr_block (trace main quiet) public_subnet_1 = Some s1 /\
    cidr_block (trace main quiet) public_subnet_2 = Some s2 /\
    (forall a, in_cidr s1 a -> ~ in_cidr s2 a).
Proof.
  split; [reflexivity|].
  destruct (subnets_partition_vpc quiet) as (v & s1 & s2 & _ & _ & _ & Hv & H1 & H2 & _ & Hd & _);
    [reflexivity|].
  exists v, s1, s2. repeat split; assumption.
Defined.

(** ** The service, its task and the load balancer *)

(** C8: the service runs the declared task definition, whose container
    definitions hold one container; the container name and port the service
    registers with the target group are that container's name ["myapp"] and
    containerPort 3000; and the service's subnets and security group are
    those attached to the load balancer. *)
Theorem service_matches_task_and_alb (r : Run) :
  completes r ->
  exists cd pm slb nc : Input,
    arg (trace main r) service "task_definition" = Some (IOut (task_definition.@"arn")) /\
    task_definition ∈ declared (trace main r) /\
    arg (trace main r) task_definition "container_definitions" =
      Some (IOut (JsonDumps (IList [cd]))) /\
    getitem "name" cd = Some (IStr "myapp") /\
    getitem "portMappings" cd = Some (IList [pm]) /\
    getitem "containerPort" pm = Some (IInt 3000) /\
    arg (trace main r) service "load_balancers" = Some (IList [slb]) /\
    getitem "container_name" slb = getitem "name" cd /\
    getitem "container_port" slb = getitem "containerPort" pm /\
    getitem "target_group_arn" slb = Some (IOut (target_group.@"arn")) /\
    arg (trace main r) service "network_configuration" = Some nc /\
    arg (trace main r) alb "subnets" =
      Some (IList [IOut (public_subnet_1.@"id"); IOut (public_subnet_2.@"id")]) /\
    arg (trace main r) alb "security_groups" = Some (IList [IOut (security_group.@"id")]) /\
    getitem "subnets" nc = arg (trace main r) alb "subnets" /\
    getitem "security_groups" nc = arg (trace main r) alb "security_groups".
Proof.
  intros Hr. rewrite (completes_trace r Hr).
  do 4 eexists. repeat (split; [first [reflexivity | rewrite manifest_declared; unfold textual_order; in_list]|]).
  reflexivity.
Qed.

Lemma service_matches_task_and_alb_witness :
  completes quiet /\
  arg (trace main quiet) service "task_definition" = Some (IOut (task_definition.@"arn")).
Proof.
  split; [reflexivity|].
  destruct (service_matches_task_and_alb quiet) as (cd & pm & slb & nc & H & _);
    [reflexivity | exact H].
Defined.

(** ** The container image *)

(** C9: the image of the task definition's container is the declared ECR
    repository's URL followed by [":latest"], whatever the URL resolves
    to. *)
Theorem image_from_repository (r : Run) :
  completes r ->
  exists (cd : Input) (img : Output),
    arg (trace main r) task_definition "container_definitions" =
      Some (IOut (JsonDumps (IList [cd]))) /\
    getitem "image" cd = Some (IOut img) /\
    ecr_repo ∈ declared (trace main r) /\
    h_class ecr_repo = ecr_Repository /\
    filter (fun h => bool_decide (h_class h = ecr_Repository)) (declared (trace main r)) =
      [ecr_repo] /\
    (forall (rho : Resolver) (u : string),
       rho ecr_repo "repository_url" = u -> resolveO rho img = u +:+ ":latest") /\
    resolveO (resolver r) img = resolver r ecr_repo "repository_url" +:+ ":latest".
Proof.
  intros Hr. rewrite (completes_trace r Hr).
  do 2 eexists. split; [reflexivity|]. split; [reflexivity|].
  split; [rewrite manifest_declared; unfold textual_order; in_list|].
  split; [reflexivity|]. split; [reflexivity|].
  split; [intros rho u <-; reflexivity | reflexivity].
Qed.

Lemma image_from_repository_witness :
  completes quiet /\
  exists img : Output,
    resolveO (resolver quiet) img = "myapp-repo.repository_url:latest".
Proof.
  split; [reflexivity|].
  destruct (image_from_repository quiet) as (cd & img & _ & _ & _ & _ & _ & _ & H);
    [reflexivity|].
  exists img. rewrite H. reflexivity.
Defined.

(** ** Runs that end early *)

Lemma play_returned_quiet r cs log log' :
  play cs r log = (log', Returned ()) ->
  forall i c, cs !! i = Some c -> raises r (log ++ take i cs)%list c = None.
Proof.
  revert log. induction cs as [|c0 cs IH]; intros log Hp i c Hi; [done|].
  rewrite play_cons in Hp. destruct (raises r log c0) eqn:H0; [discriminate|].
  destruct i as [|i]; cbn in Hi.
  - injection Hi as <-. cbn. by rewrite app_nil_r.
  - specialize (IH _ Hp i c Hi). cbn [take]. by rewrite <- app_assoc in IH.
Qed.

Lemma play_quiet r cs log :
  (forall i c, cs !! i = Some c -> raises r (log ++ take i cs)%list c = None) ->
  play cs r log = ((log ++ cs)%list, Returned ()).
Proof.
  revert log. induction cs as [|c0 cs IH]; intros log Hq.
  - cbn. by rewrite app_nil_r.
  - rewrite play_cons. pose proof (Hq 0 c0 eq_refl) as H0. cbn in H0.
    rewrite app_nil_r in H0. rewrite H0, IH.
    + by rewrite <- app_assoc.
    + intros i c Hi. rewrite <- app_assoc. apply (Hq (S i) c Hi).
Qed.

Lemma play_first_raise r cs log log' e :
  play cs r log = (log', Raised e) ->
  exists i c,
    cs !! i = Some c /\ raises r (log ++ take i cs)%list c = Some e /\
    (forall j c', j < i -> cs !! j = Some c' ->
                  raises r (log ++ take j cs)%list c' = None) /\
    log' = (log ++ take (S i) cs)%list.
Proof.
  revert log. induction cs as [|c0 cs IH]; intros log; [cbn; discriminate|].
  rewrite play_cons. destruct (raises r log c0) as [e'|] eqn:H0.
  - intros [= <- <-]. exists 0, c0. cbn. rewrite app_nil_r.
    repeat split; [exact H0 | lia].
  - intros Hp. destruct (IH _ Hp) as (i & c & Hi & He & Hlt & ->).
    exists (S i), c. cbn [take]. rewrite <- !app_assoc in *. cbn.
    repeat split; [exact Hi | exact He |].
    intros [|j] c' Hj Hc'; cbn in Hc'.
    + injection Hc' as <-. cbn. by rewrite app_nil_r.
    + assert (j < i) as Hji by lia. specialize (Hlt j c' Hji Hc').
      cbn [take]. by rewrite <- app_assoc in Hlt.
Qed.

(** X1: a run reaches the end of the script exactly when none of the
    eighteen calls raises at its turn; it has then issued all of them, in
    order. *)
Theorem completes_iff_no_raise (r : Run) :
  (completes r <->
   forall i c, manifest !! i = Some c -> raises r (take i manifest) c = None) /\
  (completes r -> trace main r = manifest /\ length (trace main r) = 18).
Proof.
  split.
  - unfold completes, outcome. rewrite main_play. split.
    + destruct (play manifest r []) as [log' res] eqn:Hp. cbn. intros ->.
      apply (play_returned_quiet r manifest [] log' Hp).
    + intros Hq. by rewrite (play_quiet r manifest [] Hq).
  - intros Hr. by rewrite (completes_trace r Hr).
Qed.

Lemma completes_iff_no_raise_witness :
  completes noisy /\ length (trace main noisy) = 18.
Proof.
  destruct (completes_iff_no_raise noisy) as [[_ Hq] Ht].
  assert (Hc : completes noisy) by (apply Hq; intros i c _; reflexivity).
  split; [exact Hc | apply (Ht Hc)].
Defined.

(** X2: a run that ends in an error stopped at the first call that raised:
    the error is the one that call raised, no earlier call raised, and the
    calls issued are those of the script up to and including it.  The
    script raises nothing of its own. *)
Theorem raised_at_first_raise (r : Run) (e : Exn) :
  outcome main r = Raised e ->
  exists i c,
    manifest !! i = Some c /\
    raises r (take i manifest) c = Some e /\
    (forall j c', j < i -> manifest !! j = Some c' ->
                  raises r (take j manifest) c' = None) /\
    trace main r = take (S i) manifest /\
    length (trace main r) = S i.
Proof.
  unfold outcome, trace. rewrite main_play.
  destruct (play manifest r []) as [log' res] eqn:Hp. cbn. intros ->.
  destruct (play_first_raise r _ _ _ _ Hp) as (i & c & Hi & He & Hlt & ->).
  exists i, c. cbn [app]. repeat split; try assumption.
  rewrite length_take. apply lookup_lt_Some in Hi. lia.
Qed.

Lemma raised_at_first_raise_witness :
  outcome main (failing_at 17 "denied") = Raised "denied" /\
  length (trace main (failing_at 17 "denied")) = 18.
Proof.
  split; [reflexivity|].
  destruct (raised_at_first_raise (failing_at 17 "denied") "denied")
    as (i & c & _ & _ & _ & _ & Hl); [reflexivity|].
  rewrite Hl. destruct (decide (i = 17)) as [->|Hne]; [reflexivity|].
  exfalso. apply Hne. assert (S i = 18) as H18 by (rewrite <- Hl; reflexivity). lia.
Defined.

(** ** Scope of references *)

Lemma scoped_lookup seen cs i c h :
  scoped seen cs = true -> cs !! i = Some c -> h ∈ refs c ->
  h ∈ (seen ++ declared (take i cs))%list.
Proof.
  revert seen i. induction cs as [|c0 cs IH]; intros seen i Hs Hi Hh; [done|].
  cbn [scoped] in Hs. apply andb_prop in Hs as [H0 Hs].
  destruct i as [|i]; cbn in Hi.
  - injection Hi as ->. cbn. rewrite app_nil_r.
    rewrite forallb_forall in H0. apply list_elem_of_In in Hh.
    apply (bool_decide_eq_true_1 _ (H0 h Hh)).
  - specialize (IH _ i Hs Hi Hh). rewrite <- app_assoc in IH.
    cbn [take]. unfold declared in *. cbn [omap]. cbn [list_omap].
    destruct (declared_by c0); exact IH.
Qed.

Lemma manifest_scoped : scoped [] manifest = true.
Proof. vm_compute. reflexivity. Qed.

Lemma trace_lookup r i c : trace main r !! i = Some c -> manifest !! i = Some c.
Proof. intros Hi. exact (prefix_lookup_Some _ _ _ _ Hi (trace_prefix r)). Qed.

Lemma trace_take r i :
  i <= length (trace main r) -> take i (trace main r) = take i manifest.
Proof.
  intros Hi. destruct (trace_prefix r) as [k ->]. by rewrite take_app_le.
Qed.

(** Resolution reads the resolver only at the attributes the value
    mentions. *)
Lemma resolve_agree (rho1 rho2 : Resolver) (v : Input) :
  (forall h a, (h, a) ∈ attrs v -> rho1 h a = rho2 h a) ->
  resolve rho1 v = resolve rho2 v
with resolveO_agree (rho1 rho2 : Resolver) (o : Output) :
  (forall h a, (h, a) ∈ attrsO o -> rho1 h a = rho2 h a) ->
  resolveO rho1 o = resolveO rho2 o.
Proof.
  - destruct v as [s|n|b|items|fields|o]; cbn; intros H; try reflexivity.
    + f_equal. induction items as [|x xs IHxs]; cbn; [reflexivity|].
      cbn in H. f_equal.
      * apply resolve_agree. intros h a Hin. apply H, elem_of_app. by left.
      * apply IHxs. intros h a Hin. apply H, elem_of_app. by right.
    + f_equal. induction fields as [|[k x] xs IHxs]; cbn; [reflexivity|].
      cbn in H. f_equal.
      * f_equal. apply resolve_agree. intros h a Hin. apply H, elem_of_app. by left.
      * apply IHxs. intros h a Hin. apply H, elem_of_app. by right.
    + f_equal. apply resolveO_agree. exact H.
  - destruct o as [h a|o' f|v']; cbn; intros H.
    + apply H. apply list_elem_of_here.
    + f_equal. apply resolveO_agree. exact H.
    + f_equal. apply resolve_agree. exact H.
Qed.

Lemma trace_scoped r i c h :
  trace main r !! i = Some c -> h ∈ refs c -> h ∈ declared (take i (trace main r)).
Proof.
  intros Hi Hh. rewrite trace_take by (apply lookup_lt_Some in Hi; lia).
  exact (scoped_lookup [] manifest i c h manifest_scoped (trace_lookup r i c Hi) Hh).
Qed.

(** X3: in every run, also one that ends early, each call mentions only
    resources constructed by calls issued before it, so no call refers to
    itself or to a later declaration. *)
Theorem declared_before_use (r : Run) (i : nat) (c : Call) (h : Handle) :
  trace main r !! i = Some c ->
  h ∈ refs c ->
  h ∈ declared (take i (trace main r)) /\ declared_by c <> Some h.
Proof.
  intros Hi Hh. pose proof (trace_scoped r i c h Hi Hh) as Hd.
  split; [exact Hd|]. intros Hc.
  assert (Hnd : NoDup (declared (trace main r))).
  { destruct (trace_prefix r) as [k Hk]. pose proof manifest_NoDup as Hm.
    assert (NoDup (declared manifest)) as Hdm
      by (rewrite manifest_declared; apply (bool_decide_unpack _); vm_compute; exact I).
    rewrite Hk in Hdm. unfold declared in Hdm. rewrite omap_app in Hdm.
    by apply NoDup_app in Hdm as [? _]. }
  rewrite <- (take_drop_middle _ i c Hi) in Hnd.
  unfold declared in Hnd. rewrite omap_app in Hnd. cbn in Hnd. rewrite Hc in Hnd.
  apply NoDup_app in Hnd as (_ & Hdisj & _).
  apply (Hdisj h Hd). apply list_elem_of_here.
Qed.

Lemma declared_before_use_witness :
  ecr_repo ∈ declared (take 16 (trace main quiet)).
Proof.
  apply (declared_before_use quiet 16
           (Export "ecr_repo_url" (IOut (ecr_repo.@"repository_url"))) ecr_repo).
  - reflexivity.
  - vm_compute. apply list_elem_of_here.
Defined.

(** X4: what the arguments of a call resolve to depends only on the
    attributes of resources constructed before the call: two resolvers that
    agree on those resources resolve the arguments alike. *)
Theorem arguments_depend_on_earlier_resources
    (r : Run) (i : nat) (c : Call) (rho1 rho2 : Resolver) :
  trace main r !! i = Some c ->
  (forall h a, h ∈ declared (take i (trace main r)) -> rho1 h a = rho2 h a) ->
  resolve rho1 (payload c) = resolve rho2 (payload c).
Proof.
  intros Hi Hagree. apply resolve_agree. intros h a Hin.
  apply Hagree. apply (trace_scoped r i c h Hi).
  unfold refs. apply list_elem_of_fmap. exists (h, a). split; [reflexivity | exact Hin].
Qed.

Lemma arguments_depend_on_earlier_resources_witness :
  resolve (resolver quiet)
    (IDict [("vpc_id", IOut (vpc.@"id")); ("cidr_block", IStr "10.0.1.0/24");
            ("availability_zone", IStr "us-east-1a");
            ("map_public_ip_on_launch", IBool true)]) =
  resolve (fun h a => if decide (h = vpc) then resolver quiet h a else "unknown")
    (IDict [("vpc_id", IOut (vpc.@"id")); ("cidr_block", IStr "10.0.1.0/24");
            ("availability_zone", IStr "us-east-1a");
            ("map_public_ip_on_launch", IBool true)]).
Proof.
  apply (arguments_depend_on_earlier_resources quiet 1
           (Register ec2_Subnet "public-subnet-1"
              [("vpc_id", IOut (vpc.@"id")); ("cidr_block", IStr "10.0.1.0/24");
               ("availability_zone", IStr "us-east-1a");
               ("map_public_ip_on_launch", IBool true)])).
  - reflexivity.
  - intros h a Hin.
    change (declared (take 1 (trace main quiet))) with [vpc] in Hin.
    apply list_elem_of_singleton in Hin as ->. reflexivity.
Defined.

(** X5: in every run, also one that ends early, no two declared resources
    share a logical name. *)
Theorem logical_names_unique (r : Run) :
  NoDup (h_name <$> declared (trace main r)).
Proof.
  destruct (trace_prefix r) as [k Hk].
  assert (NoDup (h_name <$> declared manifest)) as Hm
    by (rewrite manifest_declared; apply (bool_decide_unpack _); vm_compute; exact I).
  rewrite Hk in Hm. unfold declared in Hm. rewrite omap_app, fmap_app in Hm.
  by apply NoDup_app in Hm as [? _].
Qed.

(** ** Network topology *)





Lemma in_whole_space a : in_cidr (mkCidr 0 0) a <-> (0 <= a < 2 ^ 32)%Z.
Proof.
  unfold in_cidr. cbn [prefix_len address].
  change (Z.shiftr 0 (32 - 0)) with 0%Z.
  rewrite (shiftr_block a 0 (32 - 0)) by lia.
  change (2 ^ (32 - 0))%Z with (2 ^ 32)%Z. lia.
Qed.



(** X7: both subnets are public.  Each declared subnet assigns public
    addresses on launch and is associated with the route table, whose one
    route sends every IPv4 address through the internet gateway; gateway
    and route table are in the subnets' VPC. *)
Theorem subnets_are_public (r : Run) :
  completes r ->
  (forall s, s ∈ declared (trace main r) -> h_class s = ec2_Subnet ->
     arg (trace main r) s "map_public_ip_on_launch" = Some (IBool true) /\
     arg (trace main r) s "vpc_id" = arg (trace main r) route_table "vpc_id" /\
     exists a,
       a ∈ declared (trace main r) /\ h_class a = ec2_RouteTableAssociation /\
       arg (trace main r) a "subnet_id" = Some (IOut (s.@"id")) /\
       arg (trace main r) a "route_table_id" = Some (IOut (route_table.@"id"))) /\
  (exists c,
     arg (trace main r) route_table "routes" =
       Some (IList [IDict [("cidr_block", IStr "0.0.0.0/0");
                           ("gateway_id", IOut (internet_gateway.@"id"))]]) /\
     parse_cidr "0.0.0.0/0" = Some c /\
     forall a, (0 <= a < 2 ^ 32)%Z -> in_cidr c a) /\
  arg (trace main r) internet_gateway "vpc_id" = arg (trace main r) route_table "vpc_id" /\
  arg (trace main r) route_table "vpc_id" = Some (IOut (vpc.@"id")).
Proof.
  intros Hr. rewrite (completes_trace r Hr), manifest_declared.
  split; [|split; [|split; reflexivity]].
  - intros s Hin Hc. unfold textual_order in Hin.
    repeat (apply elem_of_cons in Hin as [-> | Hin]);
      try (vm_compute in Hc; discriminate Hc);
      [ | | by apply elem_of_nil in Hin].
    + split; [reflexivity|]. split; [reflexivity|].
      exists (mkHandle ec2_RouteTableAssociation "rta-1").
      split; [unfold textual_order; in_list|]. repeat split; reflexivity.
    + split; [reflexivity|]. split; [reflexivity|].
      exists (mkHandle ec2_RouteTableAssociation "rta-2").
      split; [unfold textual_order; in_list|]. repeat split; reflexivity.
  - exists (mkCidr 0 0). split; [reflexivity|]. split; [reflexivity|].
    intros a Ha. by apply in_whole_space.
Qed.

Lemma subnets_are_public_witness :
  completes quiet /\
  arg (trace main quiet) public_subnet_2 "map_public_ip_on_launch" = Some (IBool true).
Proof.
  split; [reflexivity|].
  destruct (subnets_are_public quiet) as [Hs _]; [reflexivity|].
  apply (Hs public_subnet_2); [vm_compute; in_list | reflexivity].
Defined.

(** ** What the security group lets through *)

Lemma ingress_rule_admits proto port addr :
  admits [mkRule "tcp" 80 80 ["0.0.0.0/0"]] proto port addr <->
  proto = "tcp" /\ port = 80%Z /\ (0 <= addr < 2 ^ 32)%Z.
Proof.
  unfold admits, rule_admits. split.
  - intros (ru & Hin & Hp & b & c & Hb & Hc & Ha).
    apply list_elem_of_singleton in Hin as ->. cbn in *.
    apply list_elem_of_singleton in Hb as ->.
    change (parse_cidr "0.0.0.0/0") with (Some (mkCidr 0 0)) in Hc.
    injection Hc as <-. apply in_whole_space in Ha.
    destruct Hp as [Hp | [<- Hp]]; [discriminate Hp|].
    repeat split; lia.
  - intros (-> & -> & Ha). exists (mkRule "tcp" 80 80 ["0.0.0.0/0"]).
    split; [apply list_elem_of_here|]. cbn. split; [right; split; [reflexivity | lia]|].
    exists "0.0.0.0/0", (mkCidr 0 0).
    split; [apply list_elem_of_here|]. split; [reflexivity|]. by apply in_whole_space.
Qed.

Lemma egress_rule_admits proto port addr :
  admits [mkRule "-1" 0 0 ["0.0.0.0/0"]] proto port addr <-> (0 <= addr < 2 ^ 32)%Z.
Proof.
  unfold admits, rule_admits. split.
  - intros (ru & Hin & _ & b & c & Hb & Hc & Ha).
    apply list_elem_of_singleton in Hin as ->. cbn in *.
    apply list_elem_of_singleton in Hb as ->.
    change (parse_cidr "0.0.0.0/0") with (Some (mkCidr 0 0)) in Hc.
    injection Hc as <-. by apply in_whole_space in Ha.
  - intros Ha. exists (mkRule "-1" 0 0 ["0.0.0.0/0"]).
    split; [apply list_elem_of_here|]. cbn. split; [by left|].
    exists "0.0.0.0/0", (mkCidr 0 0).
    split; [apply list_elem_of_here|]. split; [reflexivity|]. by apply in_whole_space.
Qed.

(** X8: the security group's ingress admits TCP port 80 from every IPv4
    address and nothing else, its egress admits everything.  The service's
    tasks are placed in this same security group, and the container port
    the service registers, 3000, is not admitted by the ingress. *)
Theorem security_group_admits (r : Run) :
  completes r ->
  exists (ing eg : list Rule) (nc slb : Input),
    rules (trace main r) security_group "ingress" = Some ing /\
    rules (trace main r) security_group "egress" = Some eg /\
    (forall proto port addr,
       admits ing proto port addr <->
       proto = "tcp" /\ port = 80%Z /\ (0 <= addr < 2 ^ 32)%Z) /\
    (forall proto port addr, admits eg proto port addr <-> (0 <= addr < 2 ^ 32)%Z) /\
    arg (trace main r) service "network_configuration" = Some nc /\
    getitem "security_groups" nc = Some (IList [IOut (security_group.@"id")]) /\
    arg (trace main r) service "load_balancers" = Some (IList [slb]) /\
    getitem "container_port" slb = Some (IInt 3000) /\
    (forall addr, ~ admits ing "tcp" 3000 addr).
Proof.
  intros Hr. rewrite (completes_trace r Hr).
  exists [mkRule "tcp" 80 80 ["0.0.0.0/0"]], [mkRule "-1" 0 0 ["0.0.0.0/0"]].
  do 2 eexists. split; [reflexivity|]. split; [reflexivity|].
  split; [apply ingress_rule_admits|]. split; [apply egress_rule_admits|].
  repeat (split; [reflexivity|]).
  intros addr H. apply ingress_rule_admits in H as (_ & H & _). discriminate H.
Qed.

Lemma security_group_admits_witness :
  completes quiet /\
  exists ing, rules (trace main quiet) security_group "ingress" = Some ing /\
              forall addr, ~ admits ing "tcp" 3000 addr.
Proof.
  split; [reflexivity|].
  destruct (security_group_admits quiet)
    as (ing & eg & nc & slb & Hi & _ & _ & _ & _ & _ & _ & _ & Hn); [reflexivity|].
  exists ing. split; [exact Hi | exact Hn].
Defined.

(** ** The path of a request *)

(** X9: a request reaches the service along declared resources only: the
    one listener listens on port 80 of the load balancer, which the load
    balancer's security group admits from every address, and forwards to
    the target group; that target group is the one the service registers
    its container with, it is in the VPC of the load balancer's subnets,
    and it targets IP addresses as the task's [awsvpc] network mode
    needs. *)
Theorem request_path (r : Run) :
  completes r ->
  exists ing : list Rule,
    filter (fun h => bool_decide (h_class h = lb_Listener)) (declared (trace main r)) =
      [listener] /\
    arg (trace main r) listener "load_balancer_arn" = Some (IOut (alb.@"arn")) /\
    arg (trace main r) listener "port" = Some (IInt 80) /\
    arg (trace main r) listener "default_actions" =
      Some (IList [IDict [("type", IStr "forward");
                          ("target_group_arn", IOut (target_group.@"arn"))]]) /\
    arg (trace main r) alb "security_groups" = Some (IList [IOut (security_group.@"id")]) /\
    rules (trace main r) security_group "ingress" = Some ing /\
    (forall addr, (0 <= addr < 2 ^ 32)%Z -> admits ing "tcp" 80 addr) /\
    (exists slb, arg (trace main r) service "load_balancers" = Some (IList [slb]) /\
                 getitem "target_group_arn" slb = Some (IOut (target_group.@"arn"))) /\
    arg (trace main r) target_group "vpc_id" = arg (trace main r) public_subnet_1 "vpc_id" /\
    arg (trace main r) target_group "vpc_id" = arg (trace main r) public_subnet_2 "vpc_id" /\
    arg (trace main r) target_group "vpc_id" = Some (IOut (vpc.@"id")) /\
    arg (trace main r) target_group "target_type" = Some (IStr "ip") /\
    arg (trace main r) task_definition "network_mode" = Some (IStr "awsvpc").
Proof.
  intros Hr. rewrite (completes_trace r Hr).
  exists [mkRule "tcp" 80 80 ["0.0.0.0/0"]].
  repeat (split; [reflexivity|]).
  split; [intros addr Ha; by apply ingress_rule_admits|].
  split; [eexists; split; reflexivity|].
  repeat split; reflexivity.
Qed.

Lemma request_path_witness :
  completes quiet /\
  arg (trace main quiet) listener "load_balancer_arn" = Some (IOut (alb.@"arn")).
Proof.
  split; [reflexivity|].
  destruct (request_path quiet) as (ing & _ & H & _); [reflexivity | exact H].
Defined.

(** ** The container definitions and the repository *)

Lemma append_cons (c : ascii) (s t : string) : String c s +:+ t = String c (s +:+ t).
Proof. reflexivity. Qed.

Lemma length_append (s t : string) :
  String.length (s +:+ t) = String.length s + String.length t.
Proof.
  induction s as [|c s IH]; [reflexivity|].
  rewrite append_cons. cbn [String.length]. by rewrite IH.
Qed.

Lemma append_cancel_r (s1 s2 t : string) : s1 +:+ t = s2 +:+ t -> s1 = s2.
Proof.
  revert s2. induction s1 as [|c s1 IH]; intros [|c2 s2] H.
  - reflexivity.
  - apply (f_equal String.length) in H. rewrite !length_append in H. cbn in H. lia.
  - apply (f_equal String.length) in H. rewrite !length_append in H. cbn in H. lia.
  - rewrite !append_cons in H. injection H as -> H. f_equal. by apply IH.
Qed.

(** X10: of everything the engine resolves, the container definitions read
    the repository URL only: two resolutions with the same URL give the same
    JSON text.  The image in them tells repositories apart: different URLs
    never give the same image, and the image is the URL made seven
    characters longer. *)
Theorem container_definitions_follow_repository (r : Run) :
  completes r ->
  exists (cdefs img : Output) (cd : Input),
    arg (trace main r) task_definition "container_definitions" = Some (IOut cdefs) /\
    cdefs = JsonDumps (IList [cd]) /\
    getitem "image" cd = Some (IOut img) /\
    attrsO cdefs = [(ecr_repo, "repository_url")] /\
    (forall rho1 rho2 : Resolver,
       rho1 ecr_repo "repository_url" = rho2 ecr_repo "repository_url" ->
       resolveO rho1 cdefs = resolveO rho2 cdefs) /\
    (forall rho1 rho2 : Resolver,
       resolveO rho1 img = resolveO rho2 img ->
       rho1 ecr_repo "repository_url" = rho2 ecr_repo "repository_url") /\
    (forall rho : Resolver,
       String.length (resolveO rho img) =
       String.length (rho ecr_repo "repository_url") + 7).
Proof.
  intros Hr. rewrite (completes_trace r Hr).
  do 3 eexists. split; [reflexivity|]. split; [reflexivity|].
  split; [reflexivity|]. split; [reflexivity|]. split; [|split].
  - intros rho1 rho2 Hu. apply resolveO_agree. intros h a Hin.
    cbn in Hin. apply list_elem_of_singleton in Hin. by injection Hin as -> ->.
  - intros rho1 rho2 H. exact (append_cancel_r _ _ ":latest" H).
  - intros rho.
    change (resolveO rho _) with (rho ecr_repo "repository_url" +:+ ":latest").
    rewrite length_append. reflexivity.
Qed.

Lemma container_definitions_follow_repository_witness :
  completes noisy /\
  exists cdefs : Output,
    arg (trace main noisy) task_definition "container_definitions" = Some (IOut cdefs) /\
    resolveO (resolver quiet) cdefs = resolveO (resolver noisy) cdefs.
Proof.
  split; [reflexivity|].
  destruct (container_definitions_follow_repository noisy)
    as (cdefs & img & cd & Ha & _ & _ & _ & Hsame & _); [reflexivity|].
  exists cdefs. split; [exact Ha|]. apply Hsame. reflexivity.
Defined.

(** ** Exports of a run that ends early *)

(** An export that raised stores nothing: a run whose first export raises
    has no stack output, one whose second export raises has the first. *)
Example stack_outputs_first_export_raises :
  stack_outputs (failing_at 16 "denied") = ∅.
Proof. reflexivity. Qed.

Example stack_outputs_second_export_raises :
  stack_outputs (failing_at 17 "denied") =
  {[ "ecr_repo_url" := JStr "myapp-repo.repository_url" ]}.
Proof. reflexivity. Qed.
